(** * DunGenMMORPGEngine: string helpers and the longest bounded span scan

    A shallow embedding of [test.py] (the brute-force scan
    [findLongestSubStringThatContainsTwoCharacters]) and of the helpers
    [SUBSTR], [AT] and [VAL] of [main.py], with the properties the
    specification states about them.

    Python code runs in a small monad [Py] that threads the interpreter's
    observable world (the lines written by [print]) and may raise an
    exception, so that "returns normally" and "has no side effects" are
    statements about the program and not about the host logic. *)

From stdpp Require Import base tactics option list numbers strings pretty.
From Stdlib Require Import ZArith Lia Ascii.

Open Scope Z_scope.
Open Scope nat_scope.

(** ** The interpreter monad *)

Module Py.

(** The exceptions the modelled builtins can raise. *)
Inductive exn : Type :=
| IndexError
| TypeError
| ValueError.

(** What a call can change outside of its own locals: standard output. *)
Record world : Type := World { stdout : list string }.

Definition t (X : Type) : Type := world → (exn + X) * world.

Definition ret {X} (x : X) : t X := λ w, (inr x, w).

Definition raise {X} (e : exn) : t X := λ w, (inl e, w).

Definition bind {X Y} (m : t X) (k : X → t Y) : t Y :=
  λ w, match m w with
       | (inr x, w') => k x w'
       | (inl e, w') => (inl e, w')
       end.

(** [print(line)] *)
Definition print (line : string) : t unit :=
  λ w, (inr tt, World (stdout w ++ [line])).

(** [for x in xs: acc = body(x, acc)], the loop-carried variables being
    [acc]. *)
Fixpoint for_each {St} (xs : list nat) (body : nat → St → t St) (acc : St)
    : t St :=
  match xs with
  | [] => ret acc
  | x :: xs' => bind (body x acc) (for_each xs' body)
  end.

(** [range(a, b)]: empty when [b <= a]. *)
Definition range (a b : nat) : list nat := seq a (b - a).

End Py.

Notation "'let*' x ':=' m 'in' k" := (Py.bind m (λ x, k))
  (at level 10, x name, m at level 100, k at level 200).
Notation "m ';;;' k" := (Py.bind m (λ _, k))
  (at level 100, k at level 200, right associativity).

(** ** test.py *)

Section BoundedSpan.

(** The symbols of the sequence; Python compares them with [==]. *)
Context {A : Type} `{EqDecision A}.

(** [s[i]] for a non-negative [i]: raises [IndexError] out of range. *)
Definition index (s : list A) (i : nat) : Py.t A :=
  match s !! i with
  | Some x => Py.ret x
  | None => Py.raise Py.IndexError
  end.

(** [s[lo:hi]] for non-negative bounds: never raises, bounds are clamped. *)
Definition slice (s : list A) (lo hi : nat) : list A :=
  drop lo (take hi s).

(** The body of the inner loop, lines 5 to 7; [and] evaluates [string[j]]
    only when the first comparison holds. *)
Definition scan_pair (string : list A) (c1 c2 : A) (i j : nat)
    (longest : list A) : Py.t (list A) :=
  let* x := index string i in
  if decide (x = c1) then
    let* y := index string j in
    if decide (y = c2) then
      if length longest <? length (slice string i (j + 1))
      then Py.ret (slice string i (j + 1))
      else Py.ret longest
    else Py.ret longest
  else Py.ret longest.

Definition findLongestSubStringThatContainsTwoCharacters
    (string : list A) (c1 c2 : A) : Py.t (list A) :=
  Py.for_each (Py.range 0 (length string))
    (λ i longest,
       Py.for_each (Py.range (i + 1) (length string))
         (λ j longest, scan_pair string c1 c2 i j longest)
         longest)
    [].

(** *** The O(N) alternative of the specification

    Written from the words of section 4.1 of the specification, not from
    the source, and in their order: at each position the first index of the
    start marker seen so far is brought up to date; then, if the position
    holds the end marker, the span from that first index is measured and
    kept when it is strictly longer than the longest so far. *)
Definition one_pass_step (string : list A) (c1 c2 : A) (j : nat)
    (st : option nat * list A) : Py.t (option nat * list A) :=
  let* y := index string j in
  let first :=
    match st.1 with
    | Some f => Some f
    | None => if decide (y = c1) then Some j else None
    end in
  let best :=
    match first with
    | Some f =>
        if decide (y = c2) then
          if length st.2 <? length (slice string f (j + 1))
          then slice string f (j + 1)
          else st.2
        else st.2
    | None => st.2
    end in
  Py.ret (first, best).

Definition one_pass_alternative (string : list A) (c1 c2 : A) : Py.t (list A) :=
  let* st := Py.for_each (Py.range 0 (length string))
               (one_pass_step string c1 c2) (None, []) in
  Py.ret st.2.

(** *** The scan as an enumeration of index pairs *)

(** Lines 5 to 7 run over the index pairs of [ps], in the order of [ps]. *)
Fixpoint scan_pairs (string : list A) (c1 c2 : A) (ps : list (nat * nat))
    (longest : list A) : Py.t (list A) :=
  match ps with
  | [] => Py.ret longest
  | p :: ps' =>
      Py.bind (scan_pair string c1 c2 p.1 p.2 longest)
              (scan_pairs string c1 c2 ps')
  end.

(** The index pairs in the order of the two loops, lines 3 and 4: [i] from
    0, and for each [i] every [j] from [i + 1]. *)
Definition row_major_pairs (n : nat) : list (nat * nat) :=
  i ← Py.range 0 n; pair i <$> Py.range (i + 1) n.

(** *** Specification vocabulary *)

(** A candidate span [i, j] of the specification's data model. *)
Definition candidate (s : list A) (c1 c2 : A) (i j : nat) : Prop :=
  i < j ∧ s !! i = Some c1 ∧ s !! j = Some c2.

(** [longest] is what the scan holds after it has looked at the index
    pairs in [seen]: nothing when none of them is a candidate, else the
    span of a candidate among them that none of them exceeds. *)
Definition best_of (s : list A) (c1 c2 : A) (seen : nat → nat → Prop)
    (longest : list A) : Prop :=
  (longest = [] ∧ ∀ i j, seen i j → ¬ candidate s c1 c2 i j)
  ∨ (∃ i0 j0, seen i0 j0 ∧ candidate s c1 c2 i0 j0
       ∧ longest = slice s i0 (j0 + 1)
       ∧ ∀ i j, seen i j → candidate s c1 c2 i j → j - i ≤ j0 - i0).

(** The invariant of the one-pass alternative after positions below [k]:
    [first] is the first index of the start marker, if it has been met, and
    [best] is the span from there to the last end marker met at or after
    it, if there is one. *)
Definition one_pass_inv (s : list A) (c1 c2 : A) (k : nat)
    (st : option nat * list A) : Prop :=
  match st.1 with
  | None => (∀ i, i < k → s !! i ≠ Some c1) ∧ st.2 = []
  | Some f =>
      f < k ∧ s !! f = Some c1 ∧ (∀ i, s !! i = Some c1 → f ≤ i)
      ∧ ((st.2 = [] ∧ ∀ j, f ≤ j < k → s !! j ≠ Some c2)
         ∨ (∃ l, f ≤ l < k ∧ s !! l = Some c2 ∧ st.2 = slice s f (l + 1)
              ∧ ∀ j, f ≤ j < k → s !! j = Some c2 → j ≤ l))
  end.

(** [longest] is what lines 5 to 7 hold after the pairs of [ps], taken in
    the order of [ps]: nothing when none of them is a candidate, else the
    span of the candidate among them that no other exceeds and that comes
    first in [ps] among those of its length. *)
Definition first_best (s : list A) (c1 c2 : A) (ps : list (nat * nat))
    (longest : list A) : Prop :=
  (longest = [] ∧ ∀ k i j, ps !! k = Some (i, j) → ¬ candidate s c1 c2 i j)
  ∨ (∃ k i j, ps !! k = Some (i, j) ∧ candidate s c1 c2 i j
       ∧ longest = slice s i (j + 1)
       ∧ ∀ k' i' j', ps !! k' = Some (i', j') → candidate s c1 c2 i' j' →
           j' - i' ≤ j - i ∧ (j' - i' = j - i → k ≤ k')).

(** Strict row-major order on index pairs. *)
Definition row_major_lt (i j i' j' : nat) : Prop :=
  i < i' ∨ (i = i' ∧ j < j').

(** The positions of a list of pairs follow the strict row-major order. *)
Definition ascending (ps : list (nat * nat)) : Prop :=
  ∀ k k' p p', ps !! k = Some p → ps !! k' = Some p' → k < k' →
               row_major_lt p.1 p.2 p'.1 p'.2.

(** Row-major order on index pairs: earlier [i], then earlier [j]. *)
Definition row_major_le (i j i' j' : nat) : Prop :=
  i < i' ∨ (i = i' ∧ j ≤ j').

End BoundedSpan.

Definition chars (s : string) : list ascii := String.list_ascii_of_string s.

Definition w0 : Py.world := Py.World [].

(** The call at the end of [test.py], whose result is printed. *)
Definition test_py_main : Py.t unit :=
  let* longest :=
    findLongestSubStringThatContainsTwoCharacters
      (chars "abcabcbbaababaaaberbeasbabababsabdabfbabsfbasbbfabababsdfsafasfgagrrtggsgdrg")
      "a"%char "b"%char in
  Py.print (String.string_of_list_ascii longest).

(** ** main.py *)

(** The values the helpers of [main.py] are called with or return. *)
Inductive value : Type :=
| VNone
| VBool (b : bool)
| VInt (z : Z)
| VStr (s : string).

(** Truth value testing, as [if] and [or] do it. *)
Definition truthy (v : value) : bool :=
  match v with
  | VNone => false
  | VBool b => b
  | VInt z => negb (z =? 0)%Z
  | VStr s => negb (String.eqb s EmptyString)
  end.

(** [x or y] yields [x] when it is truthy and [y] otherwise. *)
Definition py_or (x y : value) : value := if truthy x then x else y.

(** [v is None] *)
Definition is_None (v : value) : bool :=
  match v with VNone => true | _ => false end.

(** [s[:n]] for an integer [n]; a negative [n] counts from the end. *)
Definition str_take (n : Z) (s : string) : string :=
  let len := Z.of_nat (String.length s) in
  let stop := if (n <? 0)%Z then Z.max 0 (len + n) else n in
  String.substring 0 (Z.to_nat stop) s.

(** [s[:v]] for any value [v]: the bound is [None] or an integer. *)
Definition str_slice_to (s : string) (v : value) : Py.t string :=
  match v with
  | VNone => Py.ret s
  | VBool b => Py.ret (str_take (if b then 1 else 0) s)
  | VInt n => Py.ret (str_take n s)
  | VStr _ => Py.raise Py.TypeError
  end.

(** [s.find(sub)]: the lowest index at which [sub] occurs, or [-1]. *)
Fixpoint find_from (sub s : string) (k : nat) : option nat :=
  if String.prefix sub s then Some k
  else match s with
       | EmptyString => None
       | String _ s' => find_from sub s' (S k)
       end.

Definition str_find (s sub : string) : Z :=
  match find_from sub s 0 with
  | Some k => Z.of_nat k
  | None => (-1)%Z
  end.

(** [s.count(sub)]: the number of non-overlapping occurrences, scanning
    from the left; [skip] is what is left of the occurrence just counted.
    The empty string occurs once at every position, the end included. *)
Fixpoint count_from (sub s : string) (skip : nat) : nat :=
  match skip with
  | S skip' =>
      match s with
      | EmptyString => 0
      | String _ s' => count_from sub s' skip'
      end
  | O =>
      if String.prefix sub s then
        S (match s with
           | EmptyString => 0
           | String _ s' => count_from sub s' (String.length sub - 1)
           end)
      else
        match s with
        | EmptyString => 0
        | String _ s' => count_from sub s' 0
        end
  end.

Definition str_count (s sub : string) : nat := count_from sub s 0.

(** [sub] occurs in [s] at index [k]. *)
Definition occurs_at (s sub : string) (k : nat) : Prop :=
  ∃ pre post, s = String.append pre (String.append sub post)
              ∧ String.length pre = k.

(** [k] is the index of the first occurrence of [sub] in [s]. *)
Definition first_occurrence (s sub : string) (k : nat) : Prop :=
  occurs_at s sub k ∧ ∀ k', k' < k → ¬ occurs_at s sub k'.

Section Helpers.

(** Two builtins whose tables are Python's own: [str.isnumeric], decided
    by the Unicode database, and the parser behind [int(str)], which
    yields nothing where Python raises [ValueError]. *)
Context (str_isnumeric : string → bool) (int_of_str : string → option Z).

(** [int(v)] *)
Definition py_int (v : value) : Py.t Z :=
  match v with
  | VNone => Py.raise Py.TypeError
  | VBool b => Py.ret (if b then 1 else 0)%Z
  | VInt z => Py.ret z
  | VStr s =>
      match int_of_str s with
      | Some z => Py.ret z
      | None => Py.raise Py.ValueError
      end
  end.

(** [round(z)] of an integer is the integer. *)
Definition py_round (z : Z) : Z := z.

Definition OCCURS (cSearchExpression cExpressionSearched : string) : Py.t value :=
  if str_count cSearchExpression cExpressionSearched =? 0
  then Py.ret (VInt 0)
  else
    let occurances := str_count cSearchExpression cExpressionSearched in
    Py.ret (VInt (Z.of_nat occurances)).

Definition SUBSTR (cExpression : string) (cStart nCharactersReturned : value)
    : Py.t value :=
  let* start := py_int cStart in
  if (Z.of_nat (String.length cExpression) <? start)%Z then
    Py.print "Error, start position is greater than the length of the expression. Are you sure your using an expression?" ;;;
    Py.ret VNone
  else if truthy (py_or (VBool (is_None nCharactersReturned)) (VStr " ")) then
    Py.ret (VStr (str_take (Z.of_nat (String.length cExpression)) cExpression))
  else
    let* val := str_slice_to cExpression nCharactersReturned in
    Py.ret (VStr val).

Definition AT (cSearchExpression cExpressionSearched : string) (nOccurrence : Z)
    : Py.t value :=
  if (Z.of_nat (str_count cSearchExpression cExpressionSearched) <? nOccurrence)%Z
  then Py.ret (VStr "Error, there are not that many occurances of the expression.")
  else Py.ret (VInt (str_find cSearchExpression cExpressionSearched)).

(** The two [return] statements after the first [if], lines 30 to 34. *)
Definition VAL_tail (cExpression : string) (length : nat) : Py.t value :=
  if 16 <? length then
    let* z := py_int (VStr (str_take 16 cExpression)) in
    let rounded := py_round z in
    Py.ret (VInt rounded)
  else Py.ret (VInt 0).

Definition VAL (cExpression : string) : Py.t value :=
  let first_letter := str_take 1 cExpression in
  let length := String.length cExpression in
  if truthy (py_or (py_or (VBool (str_isnumeric first_letter)) (VStr "-")) (VStr "+"))
  then
    if length <? 16 then
      let* z := py_int (VStr cExpression) in
      Py.ret (VInt z)
    else VAL_tail cExpression length
  else VAL_tail cExpression length.

(** [str(v)], as [print] shows a value. *)
Definition py_str (v : value) : string :=
  match v with
  | VNone => "None"
  | VBool b => if b then "True" else "False"
  | VInt z => pretty z
  | VStr s => s
  end.

(** The four calls at the end of [main.py], lines 36 to 42. *)
Definition main_py_main : Py.t unit :=
  let* v := VAL "12345756895693452353723423423423423423423568945677857954654675878976" in
  Py.print (py_str v) ;;;
  let* a := AT "Hello World" "l" 2 in
  Py.print (py_str a) ;;;
  let* s := SUBSTR "Hello World" (VInt 1) (VStr " ") in
  Py.print (py_str s) ;;;
  let* o := OCCURS "Hello World" "Hello" in
  Py.print (py_str o).

End Helpers.

(** A decimal reader good enough to run the helpers on digit strings: an
    optional sign followed by digits. *)
Fixpoint digits_value (s : string) (acc : Z) : option Z :=
  match s with
  | EmptyString => Some acc
  | String c s' =>
      let n := nat_of_ascii c in
      if (48 <=? n) && (n <=? 57)
      then digits_value s' (10 * acc + Z.of_nat (n - 48))%Z
      else None
  end.

Definition decimal_int (s : string) : option Z :=
  match s with
  | EmptyString => None
  | String "-" (String c r) => Z.opp <$> digits_value (String c r) 0
  | String "+" (String c r) => digits_value (String c r) 0
  | _ => digits_value s 0
  end.

Definition ascii_isnumeric (s : string) : bool :=
  match s with
  | EmptyString => false
  | _ => bool_decide (is_Some (digits_value s 0))
  end.

(** * Properties *)

Example ex_ba :
  findLongestSubStringThatContainsTwoCharacters (chars "ba") "a"%char "b"%char w0
  = (inr [], w0).
Proof. reflexivity. Qed.

Example ex_test_py_main :
  test_py_main w0
  = (inr tt,
     Py.World ["abcabcbbaababaaaberbeasbabababsabdabfbabsfbasbbfababab"%string]).
Proof. reflexivity. Qed.

Example ex_AT :
  AT "Hello World" "l" 2 w0 = (inr (VInt 2), w0).
Proof. reflexivity. Qed.

Example ex_VAL :
  VAL ascii_isnumeric decimal_int
    "12345756895693452353723423423423423423423568945677857954654675878976" w0
  = (inr (VInt 1234575689569345), w0).
Proof. reflexivity. Qed.

Example ex_SUBSTR :
  SUBSTR decimal_int "Hello World" (VInt 1) (VStr " ") w0
  = (inr (VStr "Hello World"), w0).
Proof. reflexivity. Qed.

Example ex_OCCURS : OCCURS "Hello World" "Hello" w0 = (inr (VInt 1), w0).
Proof. reflexivity. Qed.

Example ex_main_py_main :
  main_py_main ascii_isnumeric decimal_int w0
  = (inr tt, Py.World ["1234575689569345"; "2"; "Hello World"; "1"]%string).
Proof. vm_compute. reflexivity. Qed.

(** ** Reasoning about loops *)

(** A loop over a range whose body always returns and leaves the world
    alone, carrying an invariant from index to index, returns with the
    invariant at the end of the range and leaves the world alone. *)
Lemma for_range_inv {St} (I : nat → St → Prop) (body : nat → St → Py.t St)
    (w : Py.world) (b : nat) :
  ∀ a acc,
    (∀ k acc, a ≤ k < b → I k acc →
       ∃ acc', body k acc w = (inr acc', w) ∧ I (k + 1) acc') →
    I a acc →
    ∃ acc', Py.for_each (Py.range a b) body acc w = (inr acc', w)
            ∧ I (a `max` b) acc'.
Proof.
  unfold Py.range. intros a.
  remember (b - a) as n eqn:Hn. revert a Hn.
  induction n as [|n IH]; intros a Hn acc Hbody Ha; simpl.
  - exists acc. split; [done|]. by replace (a `max` b) with a by lia.
  - destruct (Hbody a acc) as (acc1 & Hrun & H1); [lia|done|].
    unfold Py.bind. rewrite Hrun.
    destruct (IH (a + 1) ltac:(lia) acc1) as (acc2 & Hrest & H2).
    + intros k acc' Hk. apply Hbody. lia.
    + done.
    + exists acc2. replace (S a) with (a + 1) by lia.
      split; [done|]. by replace (a `max` b) with ((a + 1) `max` b) by lia.
Qed.

Section BoundedSpanFacts.

Context {A : Type} `{EqDecision A}.
Implicit Types (s longest r : list A) (i j k : nat).

Lemma candidate_lt s (c1 c2 : A) i j :
  candidate s c1 c2 i j → i < j < length s.
Proof.
  intros (Hij & _ & Hj). apply lookup_lt_Some in Hj. lia.
Qed.

Lemma slice_length s i j :
  j < length s → length (slice s i (j + 1)) = j + 1 - i.
Proof.
  intros Hj. unfold slice. rewrite length_drop, length_take. lia.
Qed.

Lemma slice_head s i j : i ≤ j → head (slice s i (j + 1)) = s !! i.
Proof.
  intros Hij. unfold slice.
  rewrite head_lookup, lookup_drop, lookup_take_lt by lia.
  f_equal. lia.
Qed.

Lemma slice_last s i j :
  i ≤ j → j < length s → last (slice s i (j + 1)) = s !! j.
Proof.
  intros Hij Hj. rewrite last_lookup, slice_length by done.
  unfold slice. rewrite lookup_drop, lookup_take_lt by lia.
  f_equal. lia.
Qed.

Lemma slice_infix s i j :
  i ≤ j → s = take i s ++ slice s i (j + 1) ++ drop (j + 1) s.
Proof.
  intros Hij. unfold slice.
  rewrite <- (take_drop (j + 1) s) at 1.
  rewrite <- (take_drop i (take (j + 1) s)) at 1.
  rewrite take_take, <- app_assoc. do 2 f_equal. lia.
Qed.

(** The invariant only depends on which candidates have been seen. *)
Lemma best_of_seen s c1 c2 (seen seen' : nat → nat → Prop) longest :
  best_of s c1 c2 seen longest →
  (∀ i j, seen i j → candidate s c1 c2 i j → seen' i j) →
  (∀ i j, seen' i j → candidate s c1 c2 i j → seen i j) →
  best_of s c1 c2 seen' longest.
Proof.
  intros [[-> Hnone]|(i0 & j0 & Hseen & Hc & -> & Hmax)] Hto Hfrom.
  - left. split; [done|]. intros i j Hs Hcand. by eapply Hnone; eauto.
  - right. exists i0, j0. split_and!; eauto.
Qed.

(** Looking at one more pair, lines 5 to 7. *)
Lemma scan_pair_inv s c1 c2 (seen : nat → nat → Prop) i j longest w :
  i < j < length s →
  best_of s c1 c2 seen longest →
  ∃ longest',
    scan_pair s c1 c2 i j longest w = (inr longest', w)
    ∧ best_of s c1 c2 (λ i' j', seen i' j' ∨ (i' = i ∧ j' = j)) longest'.
Proof.
  intros Hij Hbest.
  destruct (lookup_lt_is_Some_2 s i ltac:(lia)) as [x Hx].
  destruct (lookup_lt_is_Some_2 s j ltac:(lia)) as [y Hy].
  unfold scan_pair, index, Py.bind, Py.ret. rewrite Hx; simpl.
  assert (Hskip : ¬ candidate s c1 c2 i j →
            best_of s c1 c2 (λ i' j', seen i' j' ∨ (i' = i ∧ j' = j)) longest).
  { intros Hno. eapply best_of_seen; [done|by left|].
    intros i' j' [?|[-> ->]] ?; done. }
  destruct (decide (x = c1)) as [->|Hne]; simpl.
  2: { eexists; split; [done|]. apply Hskip. intros (_ & ? & _). congruence. }
  rewrite Hy; simpl.
  destruct (decide (y = c2)) as [->|Hne]; simpl.
  2: { eexists; split; [done|]. apply Hskip. intros (_ & _ & ?). congruence. }
  assert (Hcand : candidate s c1 c2 i j) by (split_and!; [lia|done..]).
  rewrite slice_length by lia.
  destruct (Nat.ltb_spec (length longest) (j + 1 - i)) as [Hlt|Hge];
    (eexists; split; [done|]).
  - right. exists i, j. split_and!; [by right|done..|].
    intros i' j' [Hs|[-> ->]] Hc'; [|lia].
    destruct Hbest as [[-> Hnone]|(i0 & j0 & _ & Hc0 & -> & Hmax)].
    + by destruct (Hnone i' j').
    + apply candidate_lt in Hc0 as ?. rewrite slice_length in Hlt by lia.
      specialize (Hmax i' j' Hs Hc'). lia.
  - destruct Hbest as [[-> _]|(i0 & j0 & Hs0 & Hc0 & -> & Hmax)];
      [simpl in Hge; lia|].
    right. exists i0, j0. split_and!; [by left|done..|].
    intros i' j' [Hs|[-> ->]] Hc'; [by apply Hmax|].
    apply candidate_lt in Hc0 as ?. rewrite slice_length in Hge by lia. lia.
Qed.

(** The inner loop, lines 4 to 7, for one [i]. *)
Lemma inner_loop_inv s c1 c2 i longest w :
  i < length s →
  best_of s c1 c2 (λ i' j', i' < i) longest →
  ∃ longest',
    Py.for_each (Py.range (i + 1) (length s))
      (λ j lg, scan_pair s c1 c2 i j lg) longest w = (inr longest', w)
    ∧ best_of s c1 c2 (λ i' j', i' < i + 1) longest'.
Proof.
  intros Hi Hbest.
  destruct (for_range_inv
    (λ k lg, best_of s c1 c2 (λ i' j', i' < i ∨ (i' = i ∧ j' < k)) lg)
    (λ j lg, scan_pair s c1 c2 i j lg) w (length s) (i + 1) longest)
    as (lg & Hrun & Hinv).
  - intros k lg Hk Hlg.
    destruct (scan_pair_inv s c1 c2 _ i k lg w ltac:(lia) Hlg)
      as (lg' & Hrun & Hlg').
    exists lg'. split; [done|].
    eapply best_of_seen; [done|..]; cbv beta; intros i' j' Hs Hc; lia.
  - eapply best_of_seen; [done|..]; cbv beta; intros i' j' Hs Hc;
      destruct Hc as (? & _); lia.
  - exists lg. split; [done|].
    eapply best_of_seen; [done|..]; cbv beta; intros i' j' Hs Hc;
      apply candidate_lt in Hc; lia.
Qed.

(** The whole scan: it returns, leaves the world alone, and holds the
    span of a candidate that no candidate exceeds, if there is one. *)
Lemma scan_returns s c1 c2 w :
  ∃ r, findLongestSubStringThatContainsTwoCharacters s c1 c2 w = (inr r, w)
       ∧ best_of s c1 c2 (λ _ _, True) r.
Proof.
  unfold findLongestSubStringThatContainsTwoCharacters.
  destruct (for_range_inv
    (λ i lg, best_of s c1 c2 (λ i' j', i' < i) lg)
    (λ i lg, Py.for_each (Py.range (i + 1) (length s))
               (λ j lg, scan_pair s c1 c2 i j lg) lg)
    w (length s) 0 []) as (r & Hrun & Hinv).
  - intros i lg Hi Hlg. apply inner_loop_inv; [lia|done].
  - left. split; [done|]. intros i j Hs. simpl in Hs. lia.
  - exists r. split; [done|].
    eapply best_of_seen; [done|done|]. cbv beta.
    intros i j _ Hc. apply candidate_lt in Hc. lia.
Qed.

(** What the scan returns is the only value its postcondition allows:
    the longest candidate is the one from the first start marker to the
    last end marker, so no two candidates tie for the maximum. *)
Lemma longest_candidate_unique s c1 c2 i j i' j' :
  candidate s c1 c2 i j → candidate s c1 c2 i' j' →
  (∀ a b, candidate s c1 c2 a b → b - a ≤ j - i) →
  (∀ a b, candidate s c1 c2 a b → b - a ≤ j' - i') →
  i = i' ∧ j = j'.
Proof.
  intros (Hij & Hi & Hj) (Hij' & Hi' & Hj') Hmax Hmax'.
  assert (candidate s c1 c2 (i `min` i') (j `max` j')) as Hc.
  { split_and!; [lia|..].
    - destruct (Nat.min_spec i i') as [[_ ->]|[_ ->]]; done.
    - destruct (Nat.max_spec j j') as [[_ ->]|[_ ->]]; done. }
  specialize (Hmax _ _ Hc). specialize (Hmax' _ _ Hc). lia.
Qed.

Lemma best_of_unique s c1 c2 r r' :
  best_of s c1 c2 (λ _ _, True) r → best_of s c1 c2 (λ _ _, True) r' → r = r'.
Proof.
  intros [[-> Hn]|(i & j & _ & Hc & -> & Hm)]
         [[-> Hn']|(i' & j' & _ & Hc' & -> & Hm')]; [done|..].
  - by destruct (Hn i' j').
  - by destruct (Hn' i j).
  - destruct (longest_candidate_unique s c1 c2 i j i' j') as [-> ->]; auto.
Qed.

(** A span from the first start marker is at least as long as the span
    from any other start marker to the same end. *)
Lemma first_start_longest s c1 c2 f i j :
  s !! f = Some c1 → (∀ i', s !! i' = Some c1 → f ≤ i') →
  candidate s c1 c2 i j →
  candidate s c1 c2 f j ∧ j - i ≤ j - f.
Proof.
  intros Hf Hleast (Hij & Hi & Hj). specialize (Hleast i Hi).
  split; [split_and!; [lia|done..]|lia].
Qed.

(** *** The one-pass alternative *)

Lemma one_pass_step_inv s c1 c2 k st w :
  k < length s →
  one_pass_inv s c1 c2 k st →
  ∃ st', one_pass_step s c1 c2 k st w = (inr st', w)
         ∧ one_pass_inv s c1 c2 (k + 1) st'.
Proof.
  intros Hk Hinv.
  destruct (lookup_lt_is_Some_2 s k Hk) as [y Hy].
  unfold one_pass_step, index, Py.bind, Py.ret. rewrite Hy; simpl.
  eexists; split; [done|].
  destruct st as [[f|] best]; unfold one_pass_inv in *; simpl in *.
  - destruct Hinv as (Hfk & Hf & Hleast & Hbest).
    split_and!; [lia|done..|].
    destruct (decide (y = c2)) as [->|Hne].
    + rewrite slice_length by done.
      assert (length best < k + 1 - f) as Hlt.
      { destruct Hbest as [[-> _]|(l & Hl & _ & -> & _)]; [simpl; lia|].
        rewrite slice_length by lia. lia. }
      destruct (Nat.ltb_spec (length best) (k + 1 - f)); [|lia].
      right. exists k. split_and!; [lia|lia|done..|]. intros; lia.
    + destruct Hbest as [[-> Hnone]|(l & Hl & Hlc & -> & Hlast)].
      * left. split; [done|]. intros j Hj Hc.
        destruct (decide (j = k)) as [->|]; [congruence|].
        apply (Hnone j); [lia|done].
      * right. exists l. split_and!; [lia|lia|done..|].
        intros j Hj Hc. destruct (decide (j = k)) as [->|]; [congruence|].
        apply Hlast; [lia|done].
  - destruct Hinv as [Hnone ->].
    destruct (decide (y = c1)) as [->|Hne1].
    + assert (∀ i, s !! i = Some c1 → k ≤ i) as Hleast.
      { intros i Hi. destruct (decide (i < k)) as [Hlt|]; [|lia].
        by destruct (Hnone i Hlt). }
      split_and!; [lia|done..|].
      destruct (decide (c1 = c2)) as [->|Hne].
      * rewrite slice_length by done.
        destruct (Nat.ltb_spec (@length A []) (k + 1 - k)); [|simpl in *; lia].
        right. exists k. split_and!; [lia|lia|done..|]. intros; lia.
      * left. split; [done|]. intros j Hj Hc.
        assert (j = k) as -> by lia. congruence.
    + split; [|done]. intros i Hi Hc.
      destruct (decide (i = k)) as [->|]; [congruence|].
      apply (Hnone i); [lia|done].
Qed.

Lemma one_pass_returns s c1 c2 w :
  ∃ st, one_pass_alternative s c1 c2 w = (inr st.2, w)
        ∧ one_pass_inv s c1 c2 (length s) st.
Proof.
  unfold one_pass_alternative.
  destruct (for_range_inv (one_pass_inv s c1 c2) (one_pass_step s c1 c2)
              w (length s) 0 (None, [])) as (st & Hrun & Hinv).
  - intros k st Hk Hst. apply one_pass_step_inv; [lia|done].
  - split; simpl; [lia|done].
  - exists st. unfold Py.bind. rewrite Hrun. split; [done|].
    by rewrite Nat.max_0_l in Hinv.
Qed.

(** Where the one-pass alternative ends up against where the scan ends
    up: they part exactly when the two markers are one symbol that occurs
    once, the pass holding that symbol and the scan nothing. *)
Lemma one_pass_inv_vs_best_of s c1 c2 st r :
  one_pass_inv s c1 c2 (length s) st →
  best_of s c1 c2 (λ _ _, True) r →
  st.2 ≠ r ↔ c1 = c2 ∧ ∃ f, s !! f = Some c1 ∧ ∀ i, s !! i = Some c1 → i = f.
Proof.
  intros Hinv Hr.
  assert (Hempty : (∀ i j, ¬ candidate s c1 c2 i j) → r = []).
  { intros Hno. apply (best_of_unique s c1 c2); [done|]. left. split; [done|].
    intros i j _. apply Hno. }
  destruct st as [[f|] best]; unfold one_pass_inv in Hinv; simpl in *.
  - destruct Hinv as (Hfn & Hf & Hleast & [[-> Hnone]|(l & Hl & Hlc & -> & Hlast)]).
    + rewrite Hempty.
      * split; [done|]. intros [-> _]. by destruct (Hnone f).
      * intros i j Hc. apply candidate_lt in Hc as ?. destruct Hc as (_ & Hi & Hj).
        specialize (Hleast i Hi). apply (Hnone j); [lia|done].
    + destruct (decide (f = l)) as [<-|Hfl].
      * rewrite Hempty.
        -- split; [intros _|intros _ Hnil].
           ++ split; [congruence|]. exists f. split; [done|]. intros i Hi.
              specialize (Hleast i Hi). apply lookup_lt_Some in Hi as ?.
              assert (i ≤ f); [|lia]. apply Hlast; [lia|congruence].
           ++ apply (f_equal length) in Hnil.
              rewrite slice_length in Hnil by done. simpl in Hnil. lia.
        -- intros i j Hc. apply candidate_lt in Hc as ?.
           destruct Hc as (_ & Hi & Hj). specialize (Hleast i Hi).
           specialize (Hlast j ltac:(lia) Hj). lia.
      * assert (r = slice s f (l + 1)) as ->.
        { apply (best_of_unique s c1 c2); [done|]. right. exists f, l.
          split_and!; [done|split_and!; [lia|done..]|done|].
          intros i j _ Hc. apply candidate_lt in Hc as ?.
          destruct Hc as (_ & Hi & Hj). specialize (Hleast i Hi).
          specialize (Hlast j ltac:(lia) Hj). lia. }
        split; [done|]. intros (-> & f' & _ & Honce).
        rewrite (Honce f Hf), (Honce l Hlc) in Hfl. done.
  - destruct Hinv as [Hnone ->]. rewrite Hempty.
    + split; [done|]. intros (_ & f & Hf & _).
      apply lookup_lt_Some in Hf as ?. by destruct (Hnone f).
    + intros i j Hc. apply candidate_lt in Hc as ?. destruct Hc as (_ & Hi & _).
      apply (Hnone i); [lia|done].
Qed.

(** *** The scan as an enumeration of index pairs *)

Lemma scan_pairs_app s c1 c2 ps qs longest w :
  scan_pairs s c1 c2 (ps ++ qs) longest w
  = Py.bind (scan_pairs s c1 c2 ps longest) (scan_pairs s c1 c2 qs) w.
Proof.
  revert longest w. induction ps as [|p ps IH]; intros longest w; [done|].
  simpl. unfold Py.bind.
  destruct (scan_pair s c1 c2 p.1 p.2 longest w) as [[e|lg] w']; [done|].
  by rewrite IH.
Qed.

(** The inner loop for one [i] looks at the pairs [(i, j)] in the order of
    its range. *)
Lemma inner_loop_pairs s c1 c2 i xs longest w :
  Py.for_each xs (λ j lg, scan_pair s c1 c2 i j lg) longest w
  = scan_pairs s c1 c2 (pair i <$> xs) longest w.
Proof.
  revert longest w. induction xs as [|j xs IH]; intros longest w; [done|].
  simpl. unfold Py.bind.
  destruct (scan_pair s c1 c2 i j longest w) as [[e|lg] w']; [done|].
  apply IH.
Qed.

Lemma outer_loop_pairs s c1 c2 n xs longest w :
  Py.for_each xs
    (λ i lg, Py.for_each (Py.range (i + 1) n)
               (λ j lg, scan_pair s c1 c2 i j lg) lg) longest w
  = scan_pairs s c1 c2 (i ← xs; pair i <$> Py.range (i + 1) n) longest w.
Proof.
  revert longest w. induction xs as [|i xs IH]; intros longest w; [done|].
  rewrite bind_cons, scan_pairs_app. simpl. unfold Py.bind.
  rewrite inner_loop_pairs.
  destruct (scan_pairs s c1 c2 _ longest w) as [[e|lg] w']; [done|].
  apply IH.
Qed.

Lemma scan_is_row_major s c1 c2 w :
  findLongestSubStringThatContainsTwoCharacters s c1 c2 w
  = scan_pairs s c1 c2 (row_major_pairs (length s)) [] w.
Proof. apply outer_loop_pairs. Qed.

Lemma row_major_pairs_elem n i j :
  (i, j) ∈ row_major_pairs n ↔ i < j < n.
Proof.
  unfold row_major_pairs, Py.range. rewrite list_elem_of_bind. split.
  - intros (i' & Hin & Hi'). apply list_elem_of_fmap in Hin as (j' & [= -> ->] & Hj').
    apply elem_of_seq in Hi', Hj'. lia.
  - intros Hij. exists i. split; [|apply elem_of_seq; lia].
    apply list_elem_of_fmap. exists j. split; [done|]. apply elem_of_seq. lia.
Qed.

Lemma ascending_app ps qs :
  ascending ps → ascending qs →
  (∀ p q, p ∈ ps → q ∈ qs → row_major_lt p.1 p.2 q.1 q.2) →
  ascending (ps ++ qs).
Proof.
  intros Hps Hqs Hcross k k' p p' Hk Hk' Hlt.
  apply lookup_app_Some in Hk as [Hk|[Hlen Hk]];
    apply lookup_app_Some in Hk' as [Hk'|[Hlen' Hk']].
  - by apply (Hps k k').
  - apply Hcross; by eapply list_elem_of_lookup_2.
  - apply lookup_lt_Some in Hk'. lia.
  - apply (Hqs (k - length ps) (k' - length ps)); [done..|lia].
Qed.

Lemma row_ascending i a m : ascending (pair i <$> seq a m).
Proof.
  intros k k' p p' Hk Hk' Hlt.
  apply list_lookup_fmap_Some in Hk as (j & -> & Hj).
  apply list_lookup_fmap_Some in Hk' as (j' & -> & Hj').
  apply lookup_seq in Hj as [-> _]. apply lookup_seq in Hj' as [-> _].
  right. simpl. lia.
Qed.

Lemma rows_ascending n m :
  ∀ a, ascending (i ← seq a m; pair i <$> Py.range (i + 1) n).
Proof.
  induction m as [|m IH]; intros a.
  - intros k k' p p' Hk. done.
  - cbn [seq]. rewrite bind_cons. apply ascending_app.
    + apply row_ascending.
    + apply IH.
    + intros p q Hp Hq.
      apply list_elem_of_fmap in Hp as (j & -> & _).
      apply list_elem_of_bind in Hq as (i' & Hq & Hi').
      apply list_elem_of_fmap in Hq as (j' & -> & _).
      apply elem_of_seq in Hi'. left. simpl. lia.
Qed.

(** The two loops meet the index pairs in ascending row-major order. *)
Lemma row_major_pairs_ascending n : ascending (row_major_pairs n).
Proof. apply rows_ascending. Qed.

(** Lines 5 to 7 on one more pair: the span held is replaced only by a
    strictly longer one, so among spans of one length the first met
    stays. *)
Lemma scan_pair_first_best s c1 c2 ps i j longest w :
  i < j < length s →
  first_best s c1 c2 ps longest →
  ∃ longest',
    scan_pair s c1 c2 i j longest w = (inr longest', w)
    ∧ first_best s c1 c2 (ps ++ [(i, j)]) longest'.
Proof.
  intros Hij Hbest.
  destruct (lookup_lt_is_Some_2 s i ltac:(lia)) as [x Hx].
  destruct (lookup_lt_is_Some_2 s j ltac:(lia)) as [y Hy].
  unfold scan_pair, index, Py.bind, Py.ret. rewrite Hx; simpl.
  assert (Hskip : ¬ candidate s c1 c2 i j →
            first_best s c1 c2 (ps ++ [(i, j)]) longest).
  { intros Hno.
    destruct Hbest as [[-> Hnone]|(k0 & i0 & j0 & Hk0 & Hc0 & -> & Hmax)].
    - left. split; [done|]. intros k i' j' Hk.
      apply lookup_snoc_Some in Hk as [[_ Hk]|[_ [= <- <-]]]; [|done].
      by eapply Hnone.
    - right. exists k0, i0, j0.
      split_and!; [by apply lookup_app_l_Some|done..|].
      intros k i' j' Hk Hc.
      apply lookup_snoc_Some in Hk as [[_ Hk]|[_ [= <- <-]]]; [|done].
      by eapply Hmax. }
  destruct (decide (x = c1)) as [->|Hne]; simpl.
  2: { eexists; split; [done|]. apply Hskip. intros (_ & ? & _). congruence. }
  rewrite Hy; simpl.
  destruct (decide (y = c2)) as [->|Hne]; simpl.
  2: { eexists; split; [done|]. apply Hskip. intros (_ & _ & ?). congruence. }
  assert (Hcand : candidate s c1 c2 i j) by (split_and!; [lia|done..]).
  rewrite slice_length by lia.
  destruct (Nat.ltb_spec (length longest) (j + 1 - i)) as [Hlt|Hge];
    (eexists; split; [done|]).
  - right. exists (length ps), i, j.
    split_and!; [by apply list_lookup_middle|done..|].
    intros k i' j' Hk Hc.
    apply lookup_snoc_Some in Hk as [[Hkl Hk]|[-> [= <- <-]]]; [|lia].
    destruct Hbest as [[-> Hnone]|(k0 & i0 & j0 & Hk0 & Hc0 & -> & Hmax)].
    + by destruct (Hnone k i' j').
    + apply candidate_lt in Hc0 as ?. rewrite slice_length in Hlt by lia.
      destruct (Hmax k i' j' Hk Hc) as [? _]. lia.
  - destruct Hbest as [[-> _]|(k0 & i0 & j0 & Hk0 & Hc0 & -> & Hmax)];
      [simpl in Hge; lia|].
    right. exists k0, i0, j0.
    split_and!; [by apply lookup_app_l_Some|done..|].
    intros k i' j' Hk Hc.
    apply lookup_snoc_Some in Hk as [[_ Hk]|[-> [= <- <-]]]; [by eapply Hmax|].
    apply candidate_lt in Hc0 as ?. rewrite slice_length in Hge by lia.
    apply lookup_lt_Some in Hk0. lia.
Qed.

(** Over any enumeration of pairs, from nothing: the span returned is the
    first met among the longest candidates met. *)
Lemma scan_pairs_first_best s c1 c2 w qs :
  ∀ ps longest,
    (∀ i j, (i, j) ∈ qs → i < j < length s) →
    first_best s c1 c2 ps longest →
    ∃ r, scan_pairs s c1 c2 qs longest w = (inr r, w)
         ∧ first_best s c1 c2 (ps ++ qs) r.
Proof.
  induction qs as [|[i j] qs IH]; intros ps longest Hin Hbest.
  - exists longest. by rewrite app_nil_r.
  - destruct (scan_pair_first_best s c1 c2 ps i j longest w) as (lg & Hrun & Hlg);
      [apply Hin; left|done|].
    destruct (IH (ps ++ [(i, j)]) lg) as (r & Hr & Hbest');
      [intros i' j' Hin'; apply Hin; by right|done|].
    exists r. simpl. unfold Py.bind. rewrite Hrun.
    split; [done|]. by rewrite <- app_assoc in Hbest'.
Qed.

Lemma first_best_nil s (c1 c2 : A) : first_best s c1 c2 [] [].
Proof. left. split; [done|]. intros k i j Hk. done. Qed.

End BoundedSpanFacts.

(** ** The contract of the bounded span scan *)

Section BoundedSpanContract.

Context {A : Type} `{EqDecision A}.
Implicit Types (s r : list A) (w : Py.world).

(** C1: when [findLongestSubStringThatContainsTwoCharacters] returns a
    non-empty result, the result starts with [c1], ends with [c2], is the
    contiguous part [s[i..j]] of [s] for some [i < j], and so has at
    least two symbols, also when [c1 = c2]. *)
Theorem result_is_bounded_span s (c1 c2 : A) w r w' :
  findLongestSubStringThatContainsTwoCharacters s c1 c2 w = (inr r, w') →
  r ≠ [] →
  head r = Some c1
  ∧ last r = Some c2
  ∧ (∃ i j, i < j < length s ∧ r = slice s i (j + 1))
  ∧ (∃ pre post, s = pre ++ r ++ post)
  ∧ 2 ≤ length r.
Proof.
  intros Hrun Hne.
  destruct (scan_returns s c1 c2 w) as (r0 & Hrun0 & Hbest).
  rewrite Hrun0 in Hrun. injection Hrun as -> ->.
  destruct Hbest as [[-> _]|(i & j & _ & Hc & -> & _)]; [done|].
  apply candidate_lt in Hc as Hlt. destruct Hc as (Hij & Hi & Hj).
  split_and!.
  - rewrite slice_head by lia. done.
  - rewrite slice_last by lia. done.
  - by exists i, j.
  - exists (take i s), (drop (j + 1) s). apply slice_infix. lia.
  - rewrite slice_length by lia. lia.
Qed.

(** C2: no candidate span of [s] is longer than the result of
    [findLongestSubStringThatContainsTwoCharacters]. *)
Theorem result_is_longest s (c1 c2 : A) w r w' i j :
  findLongestSubStringThatContainsTwoCharacters s c1 c2 w = (inr r, w') →
  candidate s c1 c2 i j →
  j - i + 1 ≤ length r ∧ length (slice s i (j + 1)) ≤ length r.
Proof.
  intros Hrun Hc.
  destruct (scan_returns s c1 c2 w) as (r0 & Hrun0 & Hbest).
  rewrite Hrun0 in Hrun. injection Hrun as -> ->.
  apply candidate_lt in Hc as Hlt. rewrite slice_length by lia.
  destruct Hbest as [[-> Hnone]|(i0 & j0 & _ & Hc0 & -> & Hmax)].
  - by destruct (Hnone i j).
  - apply candidate_lt in Hc0 as ?. rewrite slice_length by lia.
    specialize (Hmax i j I Hc). lia.
Qed.

(** C3: the two loops enumerate the index pairs [i < j] in ascending
    row-major order, and a span is replaced only by a strictly longer one;
    so over any enumeration the span held is the first met among the longest
    candidates met, and among the candidate spans of [s] that tie for the
    maximal length, the one that comes first in row-major order (earlier [i],
    then earlier [j]) is the span that
    [findLongestSubStringThatContainsTwoCharacters] returns. *)
Theorem result_is_first_longest s (c1 c2 : A) w :
  findLongestSubStringThatContainsTwoCharacters s c1 c2 w
  = scan_pairs s c1 c2 (row_major_pairs (length s)) [] w
  ∧ ascending (row_major_pairs (length s))
  ∧ (∀ i j, (i, j) ∈ row_major_pairs (length s) ↔ i < j < length s)
  ∧ (∀ i j longest,
       i < j < length s → length (slice s i (j + 1)) ≤ length longest →
       scan_pair s c1 c2 i j longest w = (inr longest, w))
  ∧ (∀ ps, (∀ i j, (i, j) ∈ ps → i < j < length s) →
       ∃ r, scan_pairs s c1 c2 ps [] w = (inr r, w) ∧ first_best s c1 c2 ps r)
  ∧ (∀ r w' i j,
       findLongestSubStringThatContainsTwoCharacters s c1 c2 w = (inr r, w') →
       candidate s c1 c2 i j →
       (∀ i' j', candidate s c1 c2 i' j' → j' - i' ≤ j - i) →
       (∀ i' j', candidate s c1 c2 i' j' → j' - i' = j - i →
                 row_major_le i j i' j') →
       r = slice s i (j + 1)).
Proof.
  assert (Hany : ∀ ps, (∀ i j, (i, j) ∈ ps → i < j < length s) →
            ∃ r, scan_pairs s c1 c2 ps [] w = (inr r, w)
                 ∧ first_best s c1 c2 ps r).
  { intros ps Hin.
    apply (scan_pairs_first_best s c1 c2 w ps [] []); [done|].
    apply first_best_nil. }
  split_and!; [apply scan_is_row_major|apply row_major_pairs_ascending
              |apply row_major_pairs_elem| |done|].
  - intros i j longest Hij Hlen.
    destruct (lookup_lt_is_Some_2 s i ltac:(lia)) as [x Hx].
    destruct (lookup_lt_is_Some_2 s j ltac:(lia)) as [y Hy].
    unfold scan_pair, index, Py.bind, Py.ret. rewrite Hx; simpl.
    destruct (decide (x = c1)); [|done]. rewrite Hy; simpl.
    destruct (decide (y = c2)); [|done].
    by destruct (Nat.ltb_spec (length longest) (length (slice s i (j + 1))));
      [lia|].
  - intros r w' i j Hrun Hc Hmax Hfirst.
    rewrite scan_is_row_major in Hrun.
    destruct (Hany (row_major_pairs (length s))) as (r0 & Hrun0 & Hbest);
      [intros i' j'; apply row_major_pairs_elem|].
    rewrite Hrun0 in Hrun. injection Hrun as -> ->.
    apply candidate_lt in Hc as Hlt.
    apply row_major_pairs_elem, list_elem_of_lookup in Hlt as [k Hk].
    destruct Hbest as [[-> Hnone]|(k0 & i0 & j0 & Hk0 & Hc0 & -> & Hm)];
      [by destruct (Hnone k i j)|].
    destruct (Hm k i j Hk Hc) as [Hle Htie].
    specialize (Hmax i0 j0 Hc0).
    specialize (Htie ltac:(lia)). specialize (Hfirst i0 j0 Hc0 ltac:(lia)).
    destruct (decide (k0 = k)) as [->|Hne]; [congruence|].
    pose proof (row_major_pairs_ascending _ k0 k _ _ Hk0 Hk ltac:(lia)) as Hasc.
    unfold row_major_lt, row_major_le in *. simpl in Hasc. lia.
Qed.

(** C4: [findLongestSubStringThatContainsTwoCharacters] returns normally
    on every input, and what it returns is empty exactly when [s] has no
    candidate span: so on the empty sequence, when [c1] does not occur,
    when [c2] does not occur, and when no [c1] is strictly before a
    [c2]. *)
Theorem scan_returns_empty_iff s (c1 c2 : A) w :
  ∃ r,
    findLongestSubStringThatContainsTwoCharacters s c1 c2 w = (inr r, w)
    ∧ (r = [] ↔ ¬ ∃ i j, candidate s c1 c2 i j)
    ∧ (s = [] → r = [])
    ∧ (c1 ∉ s → r = [])
    ∧ (c2 ∉ s → r = [])
    ∧ ((∀ i j, s !! i = Some c1 → s !! j = Some c2 → j ≤ i) → r = []).
Proof.
  destruct (scan_returns s c1 c2 w) as (r & Hrun & Hbest).
  exists r. split; [done|].
  assert (Hiff : r = [] ↔ ¬ ∃ i j, candidate s c1 c2 i j).
  { destruct Hbest as [[-> Hnone]|(i & j & _ & Hc & -> & _)].
    - split; [|done]. intros _ (i & j & Hc). by destruct (Hnone i j).
    - apply candidate_lt in Hc as Hlt. split.
      + intros Hnil. apply (f_equal length) in Hnil.
        rewrite slice_length in Hnil by lia. simpl in Hnil. lia.
      + intros Hno. destruct Hno. eauto. }
  split; [done|]. split_and!; intros H; apply Hiff; intros (i & j & Hc).
  - subst s. by destruct Hc as (_ & ? & _).
  - destruct Hc as (_ & Hi & _). by apply list_elem_of_lookup_2 in Hi.
  - destruct Hc as (_ & _ & Hj). by apply list_elem_of_lookup_2 in Hj.
  - destruct Hc as (Hij & Hi & Hj). specialize (H i j Hi Hj). lia.
Qed.

(** C6: [findLongestSubStringThatContainsTwoCharacters] is a function of
    its arguments alone and touches nothing else: whatever the world it is
    called in, it returns the same result and leaves that world as it
    was, and two calls in a row return the same result twice. *)
Theorem scan_is_pure s (c1 c2 : A) :
  ∃ r, ∀ w,
    findLongestSubStringThatContainsTwoCharacters s c1 c2 w = (inr r, w)
    ∧ (let* r1 := findLongestSubStringThatContainsTwoCharacters s c1 c2 in
       let* r2 := findLongestSubStringThatContainsTwoCharacters s c1 c2 in
       Py.ret (r1, r2)) w = (inr (r, r), w).
Proof.
  destruct (scan_returns s c1 c2 w0) as (r & _ & Hr).
  exists r. intros w.
  destruct (scan_returns s c1 c2 w) as (r' & Hrun & Hr').
  assert (r' = r) as -> by by apply (best_of_unique s c1 c2).
  split; [done|]. unfold Py.bind. by rewrite !Hrun.
Qed.

End BoundedSpanContract.

(** C7: the concrete scenarios of the specification: no span in "ba", the
    whole of "aab", and with equal markers the whole of "aaa". *)
Theorem scan_scenarios :
  findLongestSubStringThatContainsTwoCharacters (chars "ba") "a"%char "b"%char w0
    = (inr [], w0)
  ∧ findLongestSubStringThatContainsTwoCharacters (chars "aab") "a"%char "b"%char w0
    = (inr (chars "aab"), w0)
  ∧ findLongestSubStringThatContainsTwoCharacters (chars "aaa") "a"%char "a"%char w0
    = (inr (chars "aaa"), w0).
Proof. split_and!; reflexivity. Qed.

Lemma result_is_bounded_span_witness :
  findLongestSubStringThatContainsTwoCharacters (chars "xaybz") "a"%char "b"%char w0
    = (inr (chars "ayb"), w0)
  ∧ chars "ayb" ≠ []
  ∧ head (chars "ayb") = Some "a"%char
  ∧ last (chars "ayb") = Some "b"%char
  ∧ (∃ i j, i < j < length (chars "xaybz")
            ∧ chars "ayb" = slice (chars "xaybz") i (j + 1))
  ∧ (∃ pre post, chars "xaybz" = pre ++ chars "ayb" ++ post)
  ∧ 2 ≤ length (chars "ayb").
Proof.
  split; [reflexivity|]. split; [discriminate|].
  apply (result_is_bounded_span (chars "xaybz") "a"%char "b"%char w0 _ w0);
    [reflexivity|discriminate].
Defined.

Lemma result_is_longest_witness :
  candidate (chars "abab") "a"%char "b"%char 2 3
  ∧ 3 - 2 + 1 ≤ length (chars "abab")
  ∧ length (slice (chars "abab") 2 (3 + 1)) ≤ length (chars "abab").
Proof.
  assert (Hc : candidate (chars "abab") "a"%char "b"%char 2 3).
  { split_and!; [lia|reflexivity..]. }
  split; [exact Hc|].
  apply (result_is_longest (chars "abab") "a"%char "b"%char w0 _ w0 2 3);
    [reflexivity|exact Hc].
Defined.

Lemma result_is_first_longest_witness :
  scan_pairs (chars "axbayb") "a"%char "b"%char [(0, 2); (3, 5)] [] w0
    = (inr (chars "axb"), w0)
  ∧ scan_pairs (chars "axbayb") "a"%char "b"%char [(3, 5); (0, 2)] [] w0
    = (inr (chars "ayb"), w0)
  ∧ scan_pair (chars "axbayb") "a"%char "b"%char 3 5 (chars "axb") w0
    = (inr (chars "axb"), w0)
  ∧ first_best (chars "axbayb") "a"%char "b"%char [(0, 2); (3, 5)] (chars "axb")
  ∧ findLongestSubStringThatContainsTwoCharacters (chars "aab") "a"%char "b"%char w0
    = (inr (chars "aab"), w0)
  ∧ candidate (chars "aab") "a"%char "b"%char 0 2
  ∧ chars "aab" = slice (chars "aab") 0 (2 + 1).
Proof.
  destruct (result_is_first_longest (chars "axbayb") "a"%char "b"%char w0)
    as (_ & _ & _ & Hkeep & Hany & _).
  destruct (result_is_first_longest (chars "aab") "a"%char "b"%char w0)
    as (_ & _ & _ & _ & _ & Hfun).
  assert (Hc : candidate (chars "aab") "a"%char "b"%char 0 2).
  { split_and!; [lia|reflexivity..]. }
  split; [reflexivity|]. split; [reflexivity|].
  split; [apply Hkeep; simpl; lia|].
  split; [|split; [reflexivity|split; [exact Hc|]]].
  - destruct (Hany [(0, 2); (3, 5)]) as (r & Hr & Hbest).
    { intros i j Hin.
      apply elem_of_cons in Hin as [[= -> ->]|Hin]; [simpl; lia|].
      apply elem_of_cons in Hin as [[= -> ->]|Hin]; [simpl; lia|].
      by apply elem_of_nil in Hin. }
    change (scan_pairs (chars "axbayb") "a"%char "b"%char [(0, 2); (3, 5)] [] w0)
      with (@inr Py.exn _ (chars "axb"), w0) in Hr.
    injection Hr as <-. exact Hbest.
  - apply (Hfun _ w0 0 2).
    + reflexivity.
    + exact Hc.
    + intros i' j' Hc'. apply candidate_lt in Hc'. simpl in Hc'. lia.
    + intros i' j' Hc' Heq. apply candidate_lt in Hc'. simpl in Hc'.
      unfold row_major_le. lia.
Defined.

(** ** The helpers of main.py *)

Section StringFacts.

Implicit Types (s sub : string) (k : nat).

Lemma substring_all s : String.substring 0 (String.length s) s = s.
Proof. induction s as [|c s IH]; simpl; [done|by rewrite IH]. Qed.

Lemma str_take_all s : str_take (Z.of_nat (String.length s)) s = s.
Proof.
  unfold str_take.
  destruct (Z.ltb_spec (Z.of_nat (String.length s)) 0) as [?|_]; [lia|].
  rewrite Nat2Z.id. apply substring_all.
Qed.

Lemma append_cons c s post :
  String.append (String c s) post = String c (String.append s post).
Proof. reflexivity. Qed.

Lemma prefix_app sub s :
  String.prefix sub s = true ↔ ∃ post, s = String.append sub post.
Proof.
  revert s. induction sub as [|a sub IH]; intros s.
  - destruct s; simpl; (split; [eauto|done]).
  - destruct s as [|b s]; simpl.
    + split; [done|]. by intros [post ?].
    + destruct (ascii_dec a b) as [->|Hne].
      * rewrite IH.
        split; intros [post Hpost]; exists post;
          rewrite append_cons in *; congruence.
      * split; [done|]. intros [post Hpost].
        rewrite append_cons in Hpost. congruence.
Qed.

Lemma occurs_at_0 s sub : occurs_at s sub 0 ↔ String.prefix sub s = true.
Proof.
  rewrite prefix_app. split.
  - intros (pre & post & -> & Hlen). destruct pre; [|done]. by exists post.
  - intros [post ->]. by exists EmptyString, post.
Qed.

Lemma occurs_at_S c s sub k :
  occurs_at (String c s) sub (S k) ↔ occurs_at s sub k.
Proof.
  split.
  - intros (pre & post & Heq & Hlen). destruct pre as [|c' pre]; [done|].
    rewrite append_cons in Heq. simpl in Hlen.
    exists pre, post. split; congruence.
  - intros (pre & post & -> & <-). by exists (String c pre), post.
Qed.

Ltac case_prefix H :=
  match goal with
  | |- context [String.prefix ?sub ?s] => destruct (String.prefix sub s) eqn:H
  end.

Lemma find_from_eq sub s k0 :
  find_from sub s k0
  = if String.prefix sub s then Some k0
    else match s with
         | EmptyString => None
         | String _ s' => find_from sub s' (S k0)
         end.
Proof. by destruct s. Qed.

Lemma count_from_0_eq sub s :
  count_from sub s 0
  = if String.prefix sub s then
      S (match s with
         | EmptyString => 0
         | String _ s' => count_from sub s' (String.length sub - 1)
         end)
    else match s with
         | EmptyString => 0
         | String _ s' => count_from sub s' 0
         end.
Proof. by destruct s. Qed.

(** [str.find] answers with the first occurrence. *)
Lemma find_from_Some sub s :
  ∀ k0 k, find_from sub s k0 = Some k →
          ∃ d, k = k0 + d ∧ first_occurrence s sub d.
Proof.
  induction s as [|c s IH]; intros k0 k; rewrite find_from_eq; case_prefix Hp.
  1,3: intros [= <-]; exists 0; split; [lia|];
       split; [by apply occurs_at_0|lia].
  - done.
  - intros Hfind. destruct (IH _ _ Hfind) as (d & -> & Hocc & Hleast).
    exists (S d). split; [lia|]. split; [by apply occurs_at_S|].
    intros [|k'] Hlt.
    + rewrite occurs_at_0. congruence.
    + rewrite occurs_at_S. apply Hleast. lia.
Qed.

(** It answers with nothing only when there is no occurrence. *)
Lemma find_from_None sub s :
  ∀ k0, find_from sub s k0 = None → ∀ k, ¬ occurs_at s sub k.
Proof.
  induction s as [|c s IH]; intros k0; rewrite find_from_eq; case_prefix Hp;
    try done.
  - intros _ k (pre & post & Heq & _).
    destruct pre; [|done]. simpl in Heq.
    assert (String.prefix sub EmptyString = true) as Hp';
      [apply prefix_app; eauto|congruence].
  - intros Hfind [|k].
    + rewrite occurs_at_0. congruence.
    + rewrite occurs_at_S. by eapply IH.
Qed.

(** [str.count] and [str.find] agree on whether there is an occurrence. *)
Lemma count_from_pos_find sub s :
  ∀ skip k0, 0 < count_from sub s skip → is_Some (find_from sub s k0).
Proof.
  induction s as [|c s IH]; intros skip k0; rewrite find_from_eq;
    (destruct skip as [|skip]; [rewrite count_from_0_eq|cbn [count_from]]);
    case_prefix Hp; try done; try lia.
  all: intros Hpos; by eapply IH.
Qed.

Lemma find_from_count_pos sub s :
  ∀ k0, is_Some (find_from sub s k0) → 0 < count_from sub s 0.
Proof.
  induction s as [|c s IH]; intros k0;
    rewrite find_from_eq, count_from_0_eq; case_prefix Hp; try lia.
  - by intros [? ?].
  - apply IH.
Qed.

End StringFacts.

Section HelperContract.

Context (str_isnumeric : string → bool) (int_of_str : string → option Z).

(** C8: when [int(cStart)] is at most the length of [cExpression],
    [SUBSTR] returns the whole of [cExpression], whatever
    [nCharactersReturned] is: the test [nCharactersReturned is None or " "]
    holds for every value, so the slicing branch is never taken. *)
Theorem SUBSTR_returns_whole cExpression cStart nCharactersReturned start w :
  py_int int_of_str cStart w = (inr start, w) →
  (start ≤ Z.of_nat (String.length cExpression))%Z →
  SUBSTR int_of_str cExpression cStart nCharactersReturned w
    = (inr (VStr cExpression), w)
  ∧ truthy (py_or (VBool (is_None nCharactersReturned)) (VStr " ")) = true.
Proof.
  intros Hint Hle.
  assert (Htest : truthy (py_or (VBool (is_None nCharactersReturned)) (VStr " "))
                  = true) by by destruct nCharactersReturned.
  split; [|done].
  unfold SUBSTR, Py.bind. rewrite Hint, Htest.
  destruct (Z.ltb_spec (Z.of_nat (String.length cExpression)) start); [lia|].
  by rewrite str_take_all.
Qed.

(** C10: on a string of exactly 16 characters [VAL] returns 0, whatever
    the characters: the first test holds for every string, but returns only
    for fewer than 16 characters, and the second branch needs more than
    16. *)
Theorem VAL_length_16 cExpression w :
  String.length cExpression = 16 →
  VAL str_isnumeric int_of_str cExpression w = (inr (VInt 0), w)
  ∧ truthy (py_or (py_or (VBool (str_isnumeric (str_take 1 cExpression)))
                         (VStr "-")) (VStr "+")) = true.
Proof.
  intros Hlen.
  assert (Htest : truthy (py_or (py_or (VBool (str_isnumeric (str_take 1 cExpression)))
                                       (VStr "-")) (VStr "+")) = true)
    by by destruct (str_isnumeric _).
  split; [|done].
  unfold VAL, VAL_tail. rewrite Htest, Hlen. reflexivity.
Qed.

End HelperContract.

(** C9, as the code has it: when [nOccurrence] is at most the number of
    occurrences, [AT] returns [cSearchExpression.find(cExpressionSearched)]
    whatever [nOccurrence] is: the index of the first occurrence when there is
    one, and [-1] when there is none. *)
Theorem AT_returns_find cSearchExpression cExpressionSearched nOccurrence w :
  (nOccurrence ≤ Z.of_nat (str_count cSearchExpression cExpressionSearched))%Z →
  AT cSearchExpression cExpressionSearched nOccurrence w
    = (inr (VInt (str_find cSearchExpression cExpressionSearched)), w)
  ∧ (0 < str_count cSearchExpression cExpressionSearched →
     ∃ k, str_find cSearchExpression cExpressionSearched = Z.of_nat k
          ∧ first_occurrence cSearchExpression cExpressionSearched k)
  ∧ (str_count cSearchExpression cExpressionSearched = 0 →
     str_find cSearchExpression cExpressionSearched = (-1)%Z
     ∧ ∀ k, ¬ occurs_at cSearchExpression cExpressionSearched k).
Proof.
  intros Hle. split_and!.
  - unfold AT.
    by destruct (Z.ltb_spec (Z.of_nat (str_count cSearchExpression
                                         cExpressionSearched)) nOccurrence);
      [lia|].
  - intros Hpos. unfold str_find.
    destruct (count_from_pos_find _ _ 0 0 Hpos) as [k Hk]. rewrite Hk.
    destruct (find_from_Some _ _ _ _ Hk) as (d & -> & Hd). by exists d.
  - intros Hzero. unfold str_find.
    destruct (find_from cExpressionSearched cSearchExpression 0) as [k|] eqn:Hk.
    + assert (0 < str_count cSearchExpression cExpressionSearched); [|lia].
      eapply find_from_count_pos. by rewrite Hk.
    + split; [done|]. by eapply find_from_None.
Qed.

(** C9 fails as stated where nothing occurs: with no ["z"] in ["abc"] and
    [nOccurrence = 0], [AT] returns [-1], which is no index at all. *)
Lemma AT_without_occurrence :
  (0 ≤ Z.of_nat (str_count "abc" "z"))%Z
  ∧ AT "abc" "z" 0 w0 = (inr (VInt (-1)), w0)
  ∧ ¬ ∃ k, AT "abc" "z" 0 w0 = (inr (VInt (Z.of_nat k)), w0)
           ∧ first_occurrence "abc" "z" k.
Proof.
  assert (Hrun : AT "abc" "z" 0 w0 = (inr (VInt (-1)), w0)) by reflexivity.
  split; [done|]. split; [exact Hrun|].
  intros (k & Hk & _). rewrite Hrun in Hk. injection Hk as Hk. lia.
Qed.

Lemma AT_returns_find_witness :
  (2 ≤ Z.of_nat (str_count "Hello World" "l"))%Z
  ∧ AT "Hello World" "l" 2 w0 = (inr (VInt (str_find "Hello World" "l")), w0)
  ∧ str_find "Hello World" "l" = 2%Z.
Proof.
  assert (Hle : (2 ≤ Z.of_nat (str_count "Hello World" "l"))%Z)
    by (vm_compute; discriminate).
  split; [exact Hle|]. split; [|reflexivity].
  exact (proj1 (AT_returns_find "Hello World" "l" 2 w0 Hle)).
Defined.

Lemma SUBSTR_returns_whole_witness :
  py_int decimal_int (VInt 1) w0 = (inr 1%Z, w0)
  ∧ (1 ≤ Z.of_nat (String.length "Hello World"))%Z
  ∧ SUBSTR decimal_int "Hello World" (VInt 1) (VInt 3) w0
    = (inr (VStr "Hello World"), w0).
Proof.
  assert (Hle : (1 ≤ Z.of_nat (String.length "Hello World"))%Z)
    by (vm_compute; discriminate).
  split; [reflexivity|]. split; [exact Hle|].
  exact (proj1 (SUBSTR_returns_whole decimal_int "Hello World" (VInt 1) (VInt 3)
                  1%Z w0 eq_refl Hle)).
Defined.

Lemma VAL_length_16_witness :
  String.length "1234567890123456" = 16
  ∧ VAL ascii_isnumeric decimal_int "1234567890123456" w0 = (inr (VInt 0), w0).
Proof.
  split; [reflexivity|].
  exact (proj1 (VAL_length_16 ascii_isnumeric decimal_int "1234567890123456" w0
                  eq_refl)).
Defined.

(** ** The one-pass alternative against the scan *)





(** ** Further properties of the bounded span scan *)

Section BoundedSpanMore.

Context {A : Type} `{EqDecision A}.
Implicit Types (s r pre post : list A) (w : Py.world).

(** What the scan holds at the end is at least as long as any candidate. *)
Lemma best_of_longest s (c1 c2 : A) r i j :
  best_of s c1 c2 (λ _ _, True) r → candidate s c1 c2 i j →
  j - i + 1 ≤ length r.
Proof.
  intros [[-> Hnone]|(i0 & j0 & _ & Hc0 & -> & Hmax)] Hc.
  - by destruct (Hnone i j).
  - apply candidate_lt in Hc0 as ?. rewrite slice_length by lia.
    specialize (Hmax i j I Hc). destruct Hc as (? & _). lia.
Qed.

(** A sequence that starts with [c1] and ends with [c2] is its own longest
    span. *)
Lemma best_of_whole s (c1 c2 : A) :
  head s = Some c1 → last s = Some c2 → 2 ≤ length s →
  best_of s c1 c2 (λ _ _, True) s.
Proof.
  intros Hhead Hlast Hlen. right. exists 0, (length s - 1).
  rewrite head_lookup in Hhead. rewrite last_lookup in Hlast.
  replace (pred (length s)) with (length s - 1) in Hlast by lia.
  split_and!; [done|split_and!; [lia|done..]| |].
  - unfold slice. rewrite drop_0, take_ge; [done|lia].
  - intros i j _ Hc. apply candidate_lt in Hc. lia.
Qed.

Lemma candidate_reverse s (c1 c2 : A) i j :
  candidate s c1 c2 i j →
  candidate (reverse s) c2 c1 (length s - 1 - j) (length s - 1 - i).
Proof.
  intros Hc. apply candidate_lt in Hc as Hlt. destruct Hc as (_ & Hi & Hj).
  split_and!; [lia|..]; rewrite reverse_lookup by lia.
  - rewrite <- Hj. f_equal. lia.
  - rewrite <- Hi. f_equal. lia.
Qed.

Lemma slice_reverse s i j :
  i ≤ j → j < length s →
  slice (reverse s) (length s - 1 - j) (length s - 1 - i + 1)
  = reverse (slice s i (j + 1)).
Proof.
  intros Hij Hj. unfold slice.
  rewrite take_reverse, drop_reverse, length_drop.
  f_equal. rewrite take_drop_commute. f_equal; [lia|f_equal; lia].
Qed.

Lemma best_of_reverse s (c1 c2 : A) r :
  best_of s c1 c2 (λ _ _, True) r →
  best_of (reverse s) c2 c1 (λ _ _, True) (reverse r).
Proof.
  assert (Hback : ∀ a b, candidate (reverse s) c2 c1 a b →
            candidate s c1 c2 (length s - 1 - b) (length s - 1 - a)).
  { intros a b Hc. apply candidate_reverse in Hc.
    by rewrite reverse_involutive, length_reverse in Hc. }
  intros [[-> Hnone]|(i0 & j0 & _ & Hc0 & -> & Hmax)].
  - left. split; [done|]. intros a b _ Hc. by eapply Hnone, Hback.
  - right. apply candidate_lt in Hc0 as Hlt.
    exists (length s - 1 - j0), (length s - 1 - i0).
    split_and!; [done|by apply candidate_reverse| |].
    + by rewrite slice_reverse by lia.
    + intros a b _ Hc. apply candidate_lt in Hc as Hab.
      rewrite length_reverse in Hab.
      specialize (Hmax _ _ I (Hback a b Hc)). lia.
Qed.

Lemma candidate_app s pre post (c1 c2 : A) i j :
  candidate s c1 c2 i j →
  candidate (pre ++ s ++ post) c1 c2 (length pre + i) (length pre + j).
Proof.
  intros (Hij & Hi & Hj). split_and!; [lia|..];
    rewrite lookup_app_r by lia;
    (rewrite lookup_app_l by (eapply lookup_lt_Some; by rewrite Nat.add_comm, Nat.add_sub));
    by rewrite Nat.add_comm, Nat.add_sub.
Qed.

(** X1: the scan, in closed form: with the first [c1] at index [f] and the last
    [c2] at index [l], it returns [s[f..l]] when [f] is before [l], and
    nothing otherwise. *)
Theorem scan_first_to_last s (c1 c2 : A) w f l :
  s !! f = Some c1 → (∀ i, s !! i = Some c1 → f ≤ i) →
  s !! l = Some c2 → (∀ j, s !! j = Some c2 → j ≤ l) →
  findLongestSubStringThatContainsTwoCharacters s c1 c2 w
  = (inr (if decide (f < l) then slice s f (l + 1) else []), w).
Proof.
  intros Hf Hfirst Hl Hlast.
  destruct (scan_returns s c1 c2 w) as (r & -> & Hr).
  do 2 f_equal. apply (best_of_unique s c1 c2); [done|].
  destruct (decide (f < l)) as [Hlt|Hge].
  - right. exists f, l. split_and!; [done|done|done|].
    intros i j _ (_ & Hi & Hj).
    specialize (Hfirst i Hi). specialize (Hlast j Hj). lia.
  - left. split; [done|]. intros i j _ (Hij & Hi & Hj).
    specialize (Hfirst i Hi). specialize (Hlast j Hj). lia.
Qed.

(** X2: a sequence of at least two symbols that starts with [c1] and ends with
    [c2] is returned whole. *)
Theorem scan_bounded_whole s (c1 c2 : A) w :
  head s = Some c1 → last s = Some c2 → 2 ≤ length s →
  findLongestSubStringThatContainsTwoCharacters s c1 c2 w = (inr s, w).
Proof.
  intros Hhead Hlast Hlen.
  destruct (scan_returns s c1 c2 w) as (r & -> & Hr).
  do 2 f_equal. apply (best_of_unique s c1 c2); [done|].
  by apply best_of_whole.
Qed.

(** X3: scanning the result of a scan, with the same markers, gives it back. *)
Theorem scan_idempotent s (c1 c2 : A) w r w' w'' :
  findLongestSubStringThatContainsTwoCharacters s c1 c2 w = (inr r, w') →
  findLongestSubStringThatContainsTwoCharacters r c1 c2 w'' = (inr r, w'').
Proof.
  intros Hrun.
  destruct (scan_returns s c1 c2 w) as (r0 & Hrun0 & Hbest).
  rewrite Hrun0 in Hrun. injection Hrun as -> ->.
  destruct Hbest as [[-> _]|(i & j & _ & Hc & -> & _)]; [done|].
  apply candidate_lt in Hc as Hlt. destruct Hc as (Hij & Hi & Hj).
  destruct (scan_returns (slice s i (j + 1)) c1 c2 w'') as (r & -> & Hr).
  do 2 f_equal. apply (best_of_unique (slice s i (j + 1)) c1 c2); [done|].
  apply best_of_whole.
  - by rewrite slice_head by lia.
  - by rewrite slice_last by lia.
  - rewrite slice_length by lia. lia.
Qed.

(** X4: reading the sequence backwards and swapping the markers gives the
    result backwards. *)
Theorem scan_reverse s (c1 c2 : A) w r w' w'' :
  findLongestSubStringThatContainsTwoCharacters s c1 c2 w = (inr r, w') →
  findLongestSubStringThatContainsTwoCharacters (reverse s) c2 c1 w''
  = (inr (reverse r), w'').
Proof.
  intros Hrun.
  destruct (scan_returns s c1 c2 w) as (r0 & Hrun0 & Hbest).
  rewrite Hrun0 in Hrun. injection Hrun as -> ->.
  destruct (scan_returns (reverse s) c2 c1 w'') as (r' & -> & Hr').
  do 2 f_equal. apply (best_of_unique (reverse s) c2 c1); [done|].
  by apply best_of_reverse.
Qed.

(** X5: symbols added before or after the sequence never shorten the result. *)
Theorem scan_extension s pre post (c1 c2 : A) w r w' v r' v' :
  findLongestSubStringThatContainsTwoCharacters s c1 c2 w = (inr r, w') →
  findLongestSubStringThatContainsTwoCharacters (pre ++ s ++ post) c1 c2 v
  = (inr r', v') →
  length r ≤ length r'.
Proof.
  intros Hrun Hrun'.
  destruct (scan_returns s c1 c2 w) as (r0 & Hrun0 & Hbest).
  rewrite Hrun0 in Hrun. injection Hrun as -> ->.
  destruct (scan_returns (pre ++ s ++ post) c1 c2 v) as (r1 & Hrun1 & Hbest').
  rewrite Hrun1 in Hrun'. injection Hrun' as -> ->.
  destruct Hbest as [[-> _]|(i & j & _ & Hc & -> & _)]; [simpl; lia|].
  apply candidate_lt in Hc as Hlt. rewrite slice_length by lia.
  apply (candidate_app s pre post) in Hc.
  apply (best_of_longest _ _ _ _ _ _ Hbest') in Hc. lia.
Qed.

End BoundedSpanMore.

Lemma scan_first_to_last_witness :
  chars "xaybz" !! 1 = Some "a"%char
  ∧ chars "xaybz" !! 3 = Some "b"%char
  ∧ findLongestSubStringThatContainsTwoCharacters (chars "xaybz") "a"%char "b"%char w0
    = (inr (chars "ayb"), w0).
Proof.
  split; [reflexivity|]. split; [reflexivity|].
  apply (scan_first_to_last (chars "xaybz") "a"%char "b"%char w0 1 3).
  - reflexivity.
  - intros [|i] Hi; [discriminate|lia].
  - reflexivity.
  - intros j Hj. apply lookup_lt_Some in Hj as Hlt. simpl in Hlt.
    destruct (decide (j = 4)) as [->|]; [discriminate|lia].
Defined.

Lemma scan_bounded_whole_witness :
  head (chars "axb") = Some "a"%char
  ∧ last (chars "axb") = Some "b"%char
  ∧ 2 ≤ length (chars "axb")
  ∧ findLongestSubStringThatContainsTwoCharacters (chars "axb") "a"%char "b"%char w0
    = (inr (chars "axb"), w0).
Proof.
  split; [reflexivity|]. split; [reflexivity|]. split; [simpl; lia|].
  apply (scan_bounded_whole (chars "axb") "a"%char "b"%char w0);
    [reflexivity|reflexivity|simpl; lia].
Defined.

Lemma scan_idempotent_witness :
  findLongestSubStringThatContainsTwoCharacters (chars "xaybz") "a"%char "b"%char w0
  = (inr (chars "ayb"), w0)
  ∧ findLongestSubStringThatContainsTwoCharacters (chars "ayb") "a"%char "b"%char w0
    = (inr (chars "ayb"), w0).
Proof.
  split; [reflexivity|].
  apply (scan_idempotent (chars "xaybz") "a"%char "b"%char w0 (chars "ayb") w0 w0).
  reflexivity.
Defined.

Lemma scan_reverse_witness :
  findLongestSubStringThatContainsTwoCharacters (chars "xaybz") "a"%char "b"%char w0
  = (inr (chars "ayb"), w0)
  ∧ findLongestSubStringThatContainsTwoCharacters
      (reverse (chars "xaybz")) "b"%char "a"%char w0
    = (inr (reverse (chars "ayb")), w0).
Proof.
  split; [reflexivity|].
  apply (scan_reverse (chars "xaybz") "a"%char "b"%char w0 (chars "ayb") w0 w0).
  reflexivity.
Defined.

Lemma scan_extension_witness :
  findLongestSubStringThatContainsTwoCharacters (chars "ab") "a"%char "b"%char w0
  = (inr (chars "ab"), w0)
  ∧ findLongestSubStringThatContainsTwoCharacters
      (chars "a" ++ chars "ab" ++ chars "b") "a"%char "b"%char w0
    = (inr (chars "aabb"), w0)
  ∧ length (chars "ab") ≤ length (chars "aabb").
Proof.
  split; [reflexivity|]. split; [reflexivity|].
  apply (scan_extension (chars "ab") (chars "a") (chars "b") "a"%char "b"%char
           w0 (chars "ab") w0 w0 (chars "aabb") w0); reflexivity.
Defined.

(** ** Further properties of the helpers of main.py *)

Section StringMore.

Implicit Types (s sub pre post : string) (k : nat).

Lemma str_length_append pre post :
  String.length (String.append pre post)
  = String.length pre + String.length post.
Proof.
  induction pre as [|c pre IH]; [done|].
  rewrite append_cons. simpl. by rewrite IH.
Qed.

Lemma substring_prefix sub post :
  String.substring 0 (String.length sub) (String.append sub post) = sub.
Proof.
  induction sub as [|c sub IH].
  - change (String.substring 0 0 post = EmptyString). by destruct post.
  - rewrite append_cons. simpl. by rewrite IH.
Qed.

Lemma substring_append pre sub post :
  String.substring (String.length pre) (String.length sub)
    (String.append pre (String.append sub post)) = sub.
Proof.
  induction pre as [|c pre IH]; [exact (substring_prefix sub post)|].
  rewrite append_cons. simpl. apply IH.
Qed.

Lemma prefix_length sub s :
  String.prefix sub s = true → String.length sub ≤ String.length s.
Proof.
  intros [post ->]%prefix_app. rewrite str_length_append. lia.
Qed.

(** Occurrences that [str.count] counts do not overlap. *)
Lemma count_from_bound sub s :
  sub ≠ EmptyString →
  ∀ skip, count_from sub s skip * String.length sub ≤ String.length s - skip.
Proof.
  intros Hne.
  assert (0 < String.length sub) as Hpos by (destruct sub; [done|simpl; lia]).
  induction s as [|c s IH]; intros [|skip].
  - rewrite count_from_0_eq.
    destruct (String.prefix sub EmptyString) eqn:Hp; [|simpl; lia].
    apply prefix_length in Hp. simpl in Hp. lia.
  - simpl. lia.
  - rewrite count_from_0_eq.
    destruct (String.prefix sub (String c s)) eqn:Hp.
    + apply prefix_length in Hp. simpl in Hp. simpl String.length.
      specialize (IH (String.length sub - 1)). lia.
    + specialize (IH 0). simpl String.length. lia.
  - cbn [count_from]. specialize (IH skip). simpl String.length. lia.
Qed.

(** The empty string is counted once at every position and once at the
    end. *)
Lemma count_from_empty s : count_from EmptyString s 0 = S (String.length s).
Proof.
  induction s as [|c s IH]; [done|].
  rewrite count_from_0_eq. simpl. by rewrite IH.
Qed.

Lemma str_count_0_iff s sub :
  str_count s sub = 0 ↔ ∀ k, ¬ occurs_at s sub k.
Proof.
  unfold str_count. split.
  - intros Hzero.
    destruct (find_from sub s 0) as [k|] eqn:Hk; [|by eapply find_from_None].
    assert (0 < count_from sub s 0); [|lia].
    eapply find_from_count_pos. by rewrite Hk.
  - intros Hnone. destruct (count_from sub s 0) as [|n] eqn:Hn; [done|].
    destruct (count_from_pos_find sub s 0 0 ltac:(lia)) as [k Hk].
    destruct (find_from_Some _ _ _ _ Hk) as (d & _ & Hocc & _).
    by destruct (Hnone d).
Qed.

End StringMore.

Lemma OCCURS_run s sub w :
  OCCURS s sub w = (inr (VInt (Z.of_nat (str_count s sub))), w).
Proof.
  unfold OCCURS. destruct (Nat.eqb_spec (str_count s sub) 0) as [->|_]; done.
Qed.

(** X6: [OCCURS] returns the number of non-overlapping occurrences and leaves
    the world alone; both branches of its test return that number, which is
    0 exactly when the searched expression occurs nowhere. *)
Theorem OCCURS_counts cSearchExpression cExpressionSearched w :
  OCCURS cSearchExpression cExpressionSearched w
  = (inr (VInt (Z.of_nat (str_count cSearchExpression cExpressionSearched))), w)
  ∧ (str_count cSearchExpression cExpressionSearched = 0
     ↔ ∀ k, ¬ occurs_at cSearchExpression cExpressionSearched k).
Proof.
  split; [apply OCCURS_run|apply str_count_0_iff].
Qed.

(** X7: the occurrences [OCCURS] reports fit side by side in the expression:
    their number times the length of a non-empty searched expression is at
    most the length of the expression searched in. *)
Theorem OCCURS_bound cSearchExpression cExpressionSearched w n w' :
  cExpressionSearched ≠ EmptyString →
  OCCURS cSearchExpression cExpressionSearched w = (inr (VInt n), w') →
  (0 ≤ n)%Z
  ∧ (n * Z.of_nat (String.length cExpressionSearched)
     ≤ Z.of_nat (String.length cSearchExpression))%Z.
Proof.
  intros Hne Hrun. rewrite OCCURS_run in Hrun. injection Hrun as <- <-.
  pose proof (count_from_bound cExpressionSearched cSearchExpression Hne 0) as Hb.
  unfold str_count. split; [lia|]. rewrite <- Nat2Z.inj_mul. lia.
Qed.

Lemma OCCURS_bound_witness :
  ("an"%string ≠ EmptyString)
  ∧ OCCURS "banana" "an" w0 = (inr (VInt 2), w0)
  ∧ (0 ≤ 2)%Z
  ∧ (2 * Z.of_nat (String.length "an") ≤ Z.of_nat (String.length "banana"))%Z.
Proof.
  assert (Hne : "an"%string ≠ EmptyString) by discriminate.
  split; [exact Hne|]. split; [reflexivity|].
  exact (OCCURS_bound "banana" "an" w0 2 w0 Hne eq_refl).
Defined.

Section HelperMore.

Context (str_isnumeric : string → bool) (int_of_str : string → option Z).

(** [int(v)] neither prints nor changes anything. *)
Lemma py_int_world v w x w' :
  py_int int_of_str v w = (x, w') → w' = w.
Proof.
  destruct v as [|b|z|s]; simpl; try (by intros [= _ <-]).
  unfold Py.ret, Py.raise. destruct (int_of_str s); by intros [= _ <-].
Qed.

Lemma or_blank_truthy v : truthy (py_or (VBool (is_None v)) (VStr " ")) = true.
Proof. by destruct v. Qed.

Lemma sign_guard_truthy b :
  truthy (py_or (py_or (VBool b) (VStr "-")) (VStr "+")) = true.
Proof. by destruct b. Qed.

(** X8: [SUBSTR] does not look at [nCharactersReturned]: two calls that differ
    in it only have the same outcome, errors and output included. *)
Theorem SUBSTR_ignores_count cExpression cStart n n' w :
  SUBSTR int_of_str cExpression cStart n w
  = SUBSTR int_of_str cExpression cStart n' w.
Proof.
  unfold SUBSTR, Py.bind.
  destruct (py_int int_of_str cStart w) as [[e|start] w1]; [done|].
  destruct (Z.of_nat (String.length cExpression) <? start)%Z; [done|].
  by rewrite !or_blank_truthy.
Qed.

(** X9: when [int(cStart)] is past the end of [cExpression], [SUBSTR] does not
    raise: it prints its error message, once, and returns [None]. *)
Theorem SUBSTR_start_past_end cExpression cStart n start w :
  py_int int_of_str cStart w = (inr start, w) →
  (Z.of_nat (String.length cExpression) < start)%Z →
  SUBSTR int_of_str cExpression cStart n w
  = (inr VNone,
     Py.World (Py.stdout w ++
       ["Error, start position is greater than the length of the expression. Are you sure your using an expression?"%string])).
Proof.
  intros Hint Hlt. unfold SUBSTR, Py.bind. rewrite Hint.
  by destruct (Z.ltb_spec (Z.of_nat (String.length cExpression)) start); [|lia].
Qed.

(** X10: [SUBSTR] never returns a part of [cExpression]: a string it returns is
    [cExpression] itself, and then nothing was printed. *)
Theorem SUBSTR_never_substring cExpression cStart n w r w' :
  SUBSTR int_of_str cExpression cStart n w = (inr (VStr r), w') →
  r = cExpression ∧ w' = w.
Proof.
  unfold SUBSTR, Py.bind.
  destruct (py_int int_of_str cStart w) as [[e|start] w1] eqn:Hint; [done|].
  apply py_int_world in Hint as ->.
  destruct (Z.of_nat (String.length cExpression) <? start)%Z; [done|].
  rewrite or_blank_truthy, str_take_all. by intros [= <- <-].
Qed.

(** X14: on fewer than 16 characters [VAL] is [int(cExpression)]: the number,
    or the [ValueError] of [int] when the string is not one, the empty
    string included; it never answers 0 for a string it cannot read. *)
Theorem VAL_short cExpression w :
  String.length cExpression < 16 →
  VAL str_isnumeric int_of_str cExpression w
  = match int_of_str cExpression with
    | Some z => (inr (VInt z), w)
    | None => (inl Py.ValueError, w)
    end.
Proof.
  intros Hlen. unfold VAL. rewrite sign_guard_truthy.
  destruct (Nat.ltb_spec (String.length cExpression) 16); [|lia].
  unfold py_int, Py.bind. by destruct (int_of_str cExpression).
Qed.

(** X15: on more than 16 characters [VAL] reads the first 16 and drops the
    rest: the result is [int] of the first 16 characters, whatever
    follows them. *)
Theorem VAL_long_truncates first16 rest w :
  String.length first16 = 16 → rest ≠ EmptyString →
  VAL str_isnumeric int_of_str (String.append first16 rest) w
  = match int_of_str first16 with
    | Some z => (inr (VInt z), w)
    | None => (inl Py.ValueError, w)
    end.
Proof.
  intros Hlen Hrest.
  assert (0 < String.length rest) by (destruct rest; [done|simpl; lia]).
  unfold VAL, VAL_tail. rewrite sign_guard_truthy, str_length_append, Hlen.
  destruct (Nat.ltb_spec (16 + String.length rest) 16); [lia|].
  destruct (Nat.ltb_spec 16 (16 + String.length rest)); [|lia].
  assert (str_take 16 (String.append first16 rest) = first16) as ->.
  { unfold str_take. change (16 <? 0)%Z with false. cbv iota.
    change (Z.to_nat 16) with 16. rewrite <- Hlen. apply substring_prefix. }
  unfold py_int, py_round, Py.bind. by destruct (int_of_str first16).
Qed.

(** X16: the test on the first character decides nothing: [VAL] gives the same
    outcome whatever [isnumeric] answers. *)
Theorem VAL_ignores_first_letter (isnumeric' : string → bool) cExpression w :
  VAL str_isnumeric int_of_str cExpression w
  = VAL isnumeric' int_of_str cExpression w.
Proof. unfold VAL. by rewrite !sign_guard_truthy. Qed.

End HelperMore.

(** X11: for [nOccurrence] of 1 or more, [AT] answers with its error message or
    with an index at which the searched expression really occurs, inside
    the expression searched in; it never answers [-1]. *)
Theorem AT_positive_is_occurrence cSearchExpression cExpressionSearched
    nOccurrence w k w' :
  (1 ≤ nOccurrence)%Z →
  AT cSearchExpression cExpressionSearched nOccurrence w = (inr (VInt k), w') →
  (0 ≤ k)%Z
  ∧ (k + Z.of_nat (String.length cExpressionSearched)
     ≤ Z.of_nat (String.length cSearchExpression))%Z
  ∧ String.substring (Z.to_nat k) (String.length cExpressionSearched)
      cSearchExpression = cExpressionSearched.
Proof.
  intros Hn. unfold AT.
  destruct (Z.ltb_spec (Z.of_nat (str_count cSearchExpression
                                    cExpressionSearched)) nOccurrence)
    as [|Hle]; [done|].
  intros [= <- <-]. unfold str_find.
  destruct (count_from_pos_find cExpressionSearched cSearchExpression 0 0)
    as [d Hd]; [unfold str_count in Hle; lia|].
  rewrite Hd. destruct (find_from_Some _ _ _ _ Hd) as (d' & -> & Hocc & _).
  destruct Hocc as (pre & post & -> & <-). simpl.
  rewrite Nat2Z.id, !str_length_append, substring_append.
  split_and!; [lia|lia|done].
Qed.

(** X12: [AT] answers [-1] only when asked for an occurrence numbered 0 or less
    of an expression that occurs nowhere. *)
Theorem AT_minus_one cSearchExpression cExpressionSearched nOccurrence w w' :
  AT cSearchExpression cExpressionSearched nOccurrence w
  = (inr (VInt (-1)), w') →
  (nOccurrence ≤ 0)%Z ∧ ∀ k, ¬ occurs_at cSearchExpression cExpressionSearched k.
Proof.
  unfold AT.
  destruct (Z.ltb_spec (Z.of_nat (str_count cSearchExpression
                                    cExpressionSearched)) nOccurrence)
    as [|Hle]; [done|].
  intros [= Hfind _]. unfold str_find in Hfind.
  destruct (find_from cExpressionSearched cSearchExpression 0) as [d|] eqn:Hd;
    [lia|].
  assert (Hnone : ∀ k, ¬ occurs_at cSearchExpression cExpressionSearched k)
    by by eapply find_from_None.
  apply str_count_0_iff in Hnone as Hzero. split; [lia|done].
Qed.

(** X13: the empty string is found at index 0 for every [nOccurrence] up to the
    length of the expression plus one, and is an error beyond. *)
Theorem AT_empty_needle cSearchExpression nOccurrence w :
  AT cSearchExpression EmptyString nOccurrence w
  = (inr (if (Z.of_nat (String.length cSearchExpression) + 1 <? nOccurrence)%Z
          then VStr "Error, there are not that many occurances of the expression."
          else VInt 0), w).
Proof.
  unfold AT, str_count, str_find. rewrite count_from_empty, find_from_eq.
  replace (Z.of_nat (S (String.length cSearchExpression)))
    with (Z.of_nat (String.length cSearchExpression) + 1)%Z by lia.
  assert (String.prefix EmptyString cSearchExpression = true) as ->
    by by destruct cSearchExpression.
  by destruct (_ <? _)%Z.
Qed.

Lemma SUBSTR_start_past_end_witness :
  py_int decimal_int (VStr "7") w0 = (inr 7%Z, w0)
  ∧ (Z.of_nat (String.length "abc") < 7)%Z
  ∧ SUBSTR decimal_int "abc" (VStr "7") (VInt 2) w0
  = (inr VNone,
     Py.World (Py.stdout w0 ++
       ["Error, start position is greater than the length of the expression. Are you sure your using an expression?"%string])).
Proof.
  split; [reflexivity|]. split; [simpl; lia|].
  apply (SUBSTR_start_past_end decimal_int "abc" (VStr "7") (VInt 2) 7%Z w0);
    [reflexivity|simpl; lia].
Defined.

Lemma SUBSTR_never_substring_witness :
  SUBSTR decimal_int "Hello World" (VInt 1) (VInt 3) w0
  = (inr (VStr "Hello World"), w0)
  ∧ ("Hello World"%string = "Hello World"%string ∧ w0 = w0).
Proof.
  split; [reflexivity|].
  apply (SUBSTR_never_substring decimal_int "Hello World" (VInt 1) (VInt 3)
           w0 "Hello World" w0).
  reflexivity.
Defined.

Lemma VAL_short_witness :
  String.length "-42" < 16
  ∧ VAL ascii_isnumeric decimal_int "-42" w0 = (inr (VInt (-42)), w0)
  ∧ VAL ascii_isnumeric decimal_int "abc" w0 = (inl Py.ValueError, w0).
Proof.
  split; [simpl; lia|]. split.
  - apply (VAL_short ascii_isnumeric decimal_int "-42" w0). simpl. lia.
  - apply (VAL_short ascii_isnumeric decimal_int "abc" w0). simpl. lia.
Defined.

Lemma VAL_long_truncates_witness :
  String.length "1234567890123456" = 16
  ∧ VAL ascii_isnumeric decimal_int "12345678901234567" w0
  = (inr (VInt 1234567890123456), w0).
Proof.
  split; [reflexivity|].
  apply (VAL_long_truncates ascii_isnumeric decimal_int "1234567890123456" "7" w0);
    [reflexivity|discriminate].
Defined.

Lemma AT_positive_is_occurrence_witness :
  (1 ≤ 2)%Z
  ∧ AT "Hello World" "l" 2 w0 = (inr (VInt 2), w0)
  ∧ (0 ≤ 2)%Z
  ∧ (2 + Z.of_nat (String.length "l") ≤ Z.of_nat (String.length "Hello World"))%Z
  ∧ String.substring (Z.to_nat 2) (String.length "l") "Hello World" = "l"%string.
Proof.
  split; [lia|]. split; [reflexivity|].
  apply (AT_positive_is_occurrence "Hello World" "l" 2 w0 2 w0);
    [lia|reflexivity].
Defined.

Lemma AT_minus_one_witness :
  AT "abc" "z" 0 w0 = (inr (VInt (-1)), w0)
  ∧ (0 ≤ 0)%Z ∧ ∀ k, ¬ occurs_at "abc" "z" k.
Proof.
  split; [reflexivity|].
  apply (AT_minus_one "abc" "z" 0 w0 w0). reflexivity.
Defined.
